(** * Nombres: frequency queries over per-year name records

    A shallow embedding of [nombres_SOLUCION.py].  Python integers are
    unbounded, so they are [Z]; strings are [string] (a non-ASCII letter
    of a literal is its UTF-8 bytes); a list of [Registro] tuples is a
    [list Registro]; a [set] is a [gset] and a [dict] a [gmap]; the calls
    made on [matplotlib.pyplot] are recorded as a trace. *)

From stdpp Require Import base numbers list strings pretty gmap sets sorting.

Local Open Scope Z_scope.

(** ** The Python built-ins the module calls *)
Module Py.

(** [sum(iterable)]: accumulation from [0], left to right. *)
Definition sum (l : list Z) : Z := foldl Z.add 0 l.

Section Generic.
Context {A : Type}.

(** Insertion in front of the first element that [le] puts after
    [x]: an element inserted later never overtakes an equal one. *)
Fixpoint insert_by (le : A → A → bool) (x : A) (l : list A) : list A :=
  match l with
  | [] => [x]
  | y :: l' => if le x y then x :: l else y :: insert_by le x l'
  end.

Definition sort_by (le : A → A → bool) (l : list A) : list A :=
  foldr (insert_by le) [] l.

(** The comparison of two elements by their keys, swapped when
    [reverse] is set. *)
Definition le_key (key : A → Z) (reverse : bool) (x y : A) : bool :=
  if reverse then key y <=? key x else key x <=? key y.

(** [sorted(l, key=key, reverse=reverse)] and [l.sort(key=key,
    reverse=reverse)]: the sort is stable, also when reversed. *)
Definition sorted (key : A → Z) (reverse : bool) (l : list A) : list A :=
  sort_by (le_key key reverse) l.

(** The order a list sorted by [key] is in: non-decreasing keys, or
    non-increasing ones when [reverse] is set. *)
Definition ord (key : A → Z) (reverse : bool) (x y : A) : Prop :=
  if reverse then key y ≤ key x else key x ≤ key y.

(** [max(l, key=key)]: the first element whose key is maximal; on an
    empty sequence Python raises [ValueError], here [None]. *)
Definition max (key : A → Z) (l : list A) : option A :=
  match l with
  | [] => None
  | x :: l' =>
      Some (foldl (λ best r, if key best <? key r then r else best) x l')
  end.

(** [l[:stop]]: a negative [stop] counts from the end of the list. *)
Definition slice_to (l : list A) (stop : Z) : list A :=
  if stop <? 0
  then take (Z.to_nat (Z.max 0 (Z.of_nat (length l) + stop))) l
  else take (Z.to_nat stop) l.
End Generic.

(** [sub in s] on two strings: [sub] occurs in [s], at its start or
    further on. *)
Fixpoint str_in (sub s : string) : bool :=
  String.prefix sub s
  || match s with
     | EmptyString => false
     | String _ s' => str_in sub s'
     end.

End Py.

(** ** The data model *)

(** [Registro = namedtuple('Registro', 'año, nombre, frecuencia, genero')] *)
Record Registro : Type := mkRegistro {
  año : Z;
  nombre : string;
  frecuencia : Z;
  genero : string
}.

Global Instance Registro_eq_dec : EqDecision Registro.
Proof. solve_decision. Defined.

(** The calls a function makes on [plt], in the order it makes them. *)
Inductive plt_call : Type :=
  | plt_plot (xs ys : list Z)
  | plt_bar (names : list string) (heights : list Z)
  | plt_xticks (rotation : Z)
  | plt_title (s : string)
  | plt_show.

(** ** The queries *)

(** [[r for r in registros if r.genero==genero]] *)
Definition filtrar_por_genero (registros : list Registro) (g : string)
  : list Registro :=
  filter (λ r, genero r = g) registros.

(** [if filtro is not None: registros = filtrar_por_genero(registros, filtro)] *)
Definition aplicar_filtro (registros : list Registro) (filtro : option string)
  : list Registro :=
  match filtro with
  | Some g => filtrar_por_genero registros g
  | None => registros
  end.

(** [set(r.nombre for r in registros)], after the optional filter. *)
Definition calcular_nombres (registros : list Registro)
    (filtro : option string) : gset string :=
  list_to_set (nombre <$> aplicar_filtro registros filtro).

(** The pairs of the year, sorted in place by frequency with
    [reverse=True], then [resultado[:limite]]. *)
Definition calcular_top_nombres_de_año (registros : list Registro) (a : Z)
    (limite : Z) (filtro : option string) : list (string * Z) :=
  let registros := aplicar_filtro registros filtro in
  let resultado :=
    (λ r, (nombre r, frecuencia r)) <$> filter (λ r, año r = a) registros in
  let resultado := Py.sorted snd true resultado in
  Py.slice_to resultado limite.

Definition calcular_nombres_ambos_generos (registros : list Registro)
  : gset string :=
  calcular_nombres registros (Some "Hombre"%string)
    ∩ calcular_nombres registros (Some "Mujer"%string).

(** [sorted(set(r.año for r in registros))] *)
Definition años_ordenados (registros : list Registro) : list Z :=
  Py.sorted id false (elements (list_to_set (año <$> registros) : gset Z)).

(** The loop body may raise (the [max] of an empty list), so the loop is
    a traversal in the option monad. *)
Definition calcular_nombre_mas_frecuente_por_año (registros : list Registro)
    (filtro : option string) : option (list (Z * string * Z)) :=
  let registros := aplicar_filtro registros filtro in
  let años := años_ordenados registros in
  mapM (λ a,
          let registros_año := filter (λ r, año r = a) registros in
          r ← Py.max frecuencia registros_año;
          Some (a, nombre r, frecuencia r))
       años.

(** For each year, [sum(r.frecuencia for r in registros if r.año==año
    and r.nombre==nombre)]. *)
Definition calcular_frecuencia_por_año (registros : list Registro)
    (n : string) : list (Z * Z) :=
  let años := años_ordenados registros in
  (λ a,
     (a, Py.sum (frecuencia <$>
                   filter (λ r, año r = a ∧ nombre r = n) registros)))
    <$> años.

(** [sum(r.frecuencia for r in registros if r.nombre==nombre)] *)
Definition calcular_frecuencia_acumulada (registros : list Registro)
    (n : string) : Z :=
  Py.sum (frecuencia <$> filter (λ r, nombre r = n) registros).

(** The loop [for nombre in nombres: frecuencias[nombre] = ...] over the
    elements of the set, from the empty dictionary. *)
Definition calcular_frecuencias_por_nombre (registros : list Registro)
  : gmap string Z :=
  let nombres := calcular_nombres registros None in
  foldl (λ frecuencias n,
           <[n := calcular_frecuencia_acumulada registros n]> frecuencias)
        ∅ (elements nombres).

(** The sum of the values of a dictionary, [sum(d.values())]. *)
Definition suma_valores (d : gmap string Z) : Z :=
  Py.sum ((map_to_list d).*2).

(** ["Evolución del nombre '{}'".format(nombre)] *)
Definition titulo_evolucion (n : string) : string :=
  ("Evolución del nombre '" ++ n ++ "'")%string.

(** [plt.plot(años, frecuencias)], [plt.title(...)], [plt.show()] *)
Definition mostrar_evolucion_por_año (registros : list Registro)
    (n : string) : list plt_call :=
  let años_frecuencias := calcular_frecuencia_por_año registros n in
  let años := años_frecuencias.*1 in
  let frecuencias := años_frecuencias.*2 in
  [plt_plot años frecuencias; plt_title (titulo_evolucion n); plt_show].

(** [{n for n in nombres if ' ' in n}] *)
Definition calcular_nombres_compuestos (registros : list Registro)
    (filtro : option string) : gset string :=
  filter (λ n, Py.str_in " " n) (calcular_nombres registros filtro).

(** The alternative body that the source keeps after the [return] of
    [calcular_frecuencias_por_nombre]: one pass over the records on a
    [defaultdict(int)], [frecuencias[r.nombre] += r.frecuencia]. *)
Definition frecuencias_una_pasada (registros : list Registro)
  : gmap string Z :=
  foldl (λ (frecuencias : gmap string Z) r,
           <[nombre r := default 0 (frecuencias !! nombre r) + frecuencia r]>
             frecuencias)
        ∅ registros.

(** ["Frecuencia de los {} nombres más comunes".format(limite)] *)
Definition titulo_frecuencias (limite : Z) : string :=
  "Frecuencia de los " +:+ pretty limite +:+ " nombres más comunes".

(** A call on [plt] may raise instead of returning (a bar height that
    does not fit a float, say): [plt hechas c] tells whether the call
    [c], made after the calls [hechas], returns.  A sequence of calls
    stops at the first one that raises; its outcome is the calls made,
    the one that raised included, and whether all of them returned. *)
Fixpoint llamar (plt : list plt_call → plt_call → bool)
    (hechas : list plt_call) (cs : list plt_call) : list plt_call * bool :=
  match cs with
  | [] => (hechas, true)
  | c :: cs' =>
      if plt hechas c then llamar plt (hechas ++ [c]) cs'
      else (hechas ++ [c], false)
  end.

(** [mostrar_frecuencias_nombres].  A dictionary iterates over its keys
    in the order they were inserted, here the order in which the set of
    names was iterated over, which Python does not fix: [iter] is that
    order.  The keys sorted are keys of the dictionary, so [get] finds
    each of them (the [0] stands for the [None] of a key not found,
    which is not compared there); [frecuencias_nombres[nombre]] raises
    [KeyError] on a missing key, here [None], before any call on
    [plt]; the four calls on [plt] follow, as far as they return. *)
Definition mostrar_frecuencias_nombres (iter : gset string → list string)
    (plt : list plt_call → plt_call → bool)
    (registros : list Registro) (limite : Z)
  : option (list plt_call * bool) :=
  let frecuencias_nombres := calcular_frecuencias_por_nombre registros in
  let claves := iter (calcular_nombres registros None) in
  let nombres :=
    Py.slice_to
      (Py.sorted (λ n, default 0 (frecuencias_nombres !! n)) true claves)
      limite in
  frecuencias ← mapM (λ n, frecuencias_nombres !! n) nombres;
  Some (llamar plt []
          [plt_bar nombres frecuencias; plt_xticks 80;
           plt_title (titulo_frecuencias limite); plt_show]).

(** ** Sample data *)

Definition ejemplo_ana : list Registro :=
  [ mkRegistro 2002 "ANA" 100 "Mujer";
    mkRegistro 2002 "ANA" 5 "Hombre";
    mkRegistro 2003 "ANA" 50 "Mujer" ].

Definition ejemplo_ab : list Registro :=
  [ mkRegistro 2002 "A" 10 "Hombre";
    mkRegistro 2002 "B" 20 "Hombre" ].

(** ** The specification's vocabulary *)

(** A record qualifies for a query on year [a] under an optional gender
    filter. *)
Definition califica (a : Z) (filtro : option string) (r : Registro) : Prop :=
  año r = a ∧ match filtro with Some g => genero r = g | None => True end.

Global Instance califica_dec a filtro r : Decision (califica a filtro r).
Proof. unfold califica. destruct filtro; apply _. Defined.

(** The sum of the frequency of the records named [n], record by
    record. *)
Fixpoint suma_de_nombre (n : string) (registros : list Registro) : Z :=
  match registros with
  | [] => 0
  | r :: registros' =>
      (if decide (nombre r = n) then frecuencia r else 0)
      + suma_de_nombre n registros'
  end.

(** The mapping as the specification words it: the cumulative
    frequency computed for every name of the set of distinct names. *)
Definition frecuencias_de_cada_nombre (registros : list Registro)
  : gmap string Z :=
  set_to_map (λ n, (n, calcular_frecuencia_acumulada registros n))
             (calcular_nombres registros None).

(** The title as the specification words it. *)
Definition titulo_especificado (n : string) : string :=
  ("Evolution of name '" ++ n ++ "'")%string.

(** ** Facts about the built-ins *)

Section SumFacts.
Implicit Types l : list Z.

Lemma sum_acc l a : foldl Z.add a l = a + Py.sum l.
Proof.
  unfold Py.sum. revert a. induction l as [|x l IH]; intros a; simpl.
  - lia.
  - rewrite (IH (a + x)), (IH (0 + x)). lia.
Qed.

Lemma sum_nil : Py.sum [] = 0.
Proof. reflexivity. Qed.

Lemma sum_cons x l : Py.sum (x :: l) = x + Py.sum l.
Proof. unfold Py.sum at 1. simpl. apply sum_acc. Qed.

Lemma sum_app l1 l2 : Py.sum (l1 ++ l2) = Py.sum l1 + Py.sum l2.
Proof.
  induction l1 as [|x l1 IH]; simpl.
  - rewrite sum_nil. lia.
  - rewrite !sum_cons, IH. lia.
Qed.

Lemma sum_Permutation l1 l2 : l1 ≡ₚ l2 → Py.sum l1 = Py.sum l2.
Proof.
  induction 1 as [|x l1 l2 _ IH|x y l|l1 l2 l3 _ IH1 _ IH2].
  - reflexivity.
  - rewrite !sum_cons. lia.
  - rewrite !sum_cons. lia.
  - congruence.
Qed.

Lemma sum_zeros l : Forall (λ x, x = 0) l → Py.sum l = 0.
Proof.
  induction 1 as [|x l -> _ IH]; [reflexivity|]. rewrite sum_cons. lia.
Qed.
End SumFacts.

Section SortFacts.
Context {A : Type} (key : A → Z) (reverse : bool).

Local Abbreviation ord := (Py.ord key reverse).
Local Abbreviation leb := (Py.le_key key reverse).

Local Lemma leb_true x y : leb x y = true → ord x y.
Proof. unfold Py.le_key, Py.ord. destruct reverse; lia. Qed.

Local Lemma leb_false x y : leb x y = false → ord y x ∧ key x ≠ key y.
Proof. unfold Py.le_key, Py.ord. destruct reverse; lia. Qed.

Local Lemma ord_trans x y z : ord x y → ord y z → ord x z.
Proof. unfold Py.ord. destruct reverse; lia. Qed.

Local Lemma ord_antisym x y : ord x y → ord y x → key x = key y.
Proof. unfold Py.ord. destruct reverse; lia. Qed.

Lemma insert_by_Permutation x l : Py.insert_by leb x l ≡ₚ x :: l.
Proof.
  induction l as [|y l IH]; simpl; [done|].
  destruct (leb x y); [done|]. rewrite IH. apply Permutation_swap.
Qed.

Lemma sorted_Permutation l : Py.sorted key reverse l ≡ₚ l.
Proof.
  unfold Py.sorted.
  induction l as [|x l IH]; simpl; [done|].
  rewrite insert_by_Permutation. by rewrite IH.
Qed.

Lemma insert_by_StronglySorted x l :
  StronglySorted ord l → StronglySorted ord (Py.insert_by leb x l).
Proof.
  induction 1 as [|y l Hl IH Hy]; simpl.
  - repeat constructor.
  - destruct (leb x y) eqn:E.
    + apply leb_true in E. constructor; [by constructor|].
      constructor; [done|].
      eapply Forall_impl; [exact Hy|]. intros z Hz. by eapply ord_trans.
    + apply leb_false in E as [E _]. constructor; [done|].
      rewrite insert_by_Permutation. by constructor.
Qed.

Lemma sorted_StronglySorted l :
  StronglySorted ord (Py.sorted key reverse l).
Proof.
  unfold Py.sorted.
  induction l as [|x l IH]; simpl; [constructor|].
  by apply insert_by_StronglySorted.
Qed.

Lemma insert_by_filter_key k x l :
  filter (λ y, key y = k) (Py.insert_by leb x l)
  = filter (λ y, key y = k) (x :: l).
Proof.
  induction l as [|y l IH]; simpl; [done|].
  destruct (leb x y) eqn:E; [done|].
  apply leb_false in E as [_ E].
  rewrite (filter_cons _ y), IH, !filter_cons.
  repeat case_decide; congruence.
Qed.

(** Stability: the elements of one key keep their relative order. *)
Lemma sorted_filter_key k l :
  filter (λ y, key y = k) (Py.sorted key reverse l)
  = filter (λ y, key y = k) l.
Proof.
  unfold Py.sorted.
  induction l as [|x l IH]; simpl; [done|].
  rewrite insert_by_filter_key, !filter_cons, IH. done.
Qed.

(** A list sorted by [ord] is determined by its per-key sublists: what
    [sorted] returns does not depend on the algorithm, only on its
    being a stable sort. *)
Lemma stable_sorted_unique l1 l2 :
  StronglySorted ord l1 → StronglySorted ord l2 →
  (∀ k, filter (λ y, key y = k) l1 = filter (λ y, key y = k) l2) →
  l1 = l2.
Proof.
  intros H1. revert l2.
  induction H1 as [|x l1 Hl1 IH Hx]; intros l2 H2 Hf.
  - destruct l2 as [|y l2]; [done|].
    specialize (Hf (key y)). rewrite filter_nil, filter_cons_True in Hf; done.
  - destruct H2 as [|y l2 Hl2 Hy].
    + specialize (Hf (key x)).
      rewrite filter_nil, filter_cons_True in Hf; done.
    + assert (key x = key y) as Hk.
      { assert (x ∈ y :: l2) as Hin.
        { eapply (list_elem_of_filter (λ z, key z = key x)).
          rewrite <-Hf, filter_cons_True by done. left. }
        assert (y ∈ x :: l1) as Hin'.
        { eapply (list_elem_of_filter (λ z, key z = key y)).
          rewrite Hf, filter_cons_True by done. left. }
        apply elem_of_cons in Hin as [->|Hin]; [done|].
        apply elem_of_cons in Hin' as [->|Hin']; [done|].
        rewrite Forall_forall in Hx, Hy.
        apply ord_antisym; auto. }
      assert (x = y) as ->.
      { specialize (Hf (key x)).
        rewrite !filter_cons_True in Hf by done. congruence. }
      f_equal. apply IH; [done|]. intros k. specialize (Hf k).
      rewrite !filter_cons in Hf. case_decide; congruence.
Qed.
End SortFacts.

Section MaxFacts.
Context {A : Type} (key : A → Z).

Local Abbreviation step :=
  (λ best r : A, if key best <? key r then r else best).

(** The running maximum sits at the first position whose key no later
    element exceeds and no earlier element reaches. *)
Lemma foldl_max_split x l :
  ∃ l1 l2, x :: l = l1 ++ foldl step x l :: l2
    ∧ Forall (λ y, key y < key (foldl step x l)) l1
    ∧ Forall (λ y, key y ≤ key (foldl step x l)) l2.
Proof.
  induction l as [|y l IH] using rev_ind.
  - exists [], []. simpl. by repeat constructor.
  - destruct IH as (l1 & l2 & Heq & H1 & H2).
    rewrite foldl_app. simpl. set (b := foldl step x l) in *.
    destruct (key b <? key y) eqn:E.
    + apply Z.ltb_lt in E. exists (x :: l), []. split; [done|].
      split; [|constructor]. rewrite Heq.
      apply Forall_app. split; [|constructor].
      * eapply Forall_impl; [exact H1|]. simpl. lia.
      * done.
      * eapply Forall_impl; [exact H2|]. simpl. lia.
    + apply Z.ltb_ge in E. exists l1, (l2 ++ [y]). split.
      * rewrite app_comm_cons, Heq, <-app_assoc. done.
      * split; [done|]. apply Forall_app. split; [done|].
        by repeat constructor.
Qed.

Lemma max_is_Some l : l ≠ [] → is_Some (Py.max key l).
Proof. destruct l; [done|]. intros _. simpl. eauto. Qed.

Lemma max_Some_split l r :
  Py.max key l = Some r →
  ∃ l1 l2, l = l1 ++ r :: l2
    ∧ Forall (λ y, key y < key r) l1
    ∧ Forall (λ y, key y ≤ key r) l2.
Proof.
  destruct l as [|x l]; simpl; [done|].
  intros [= <-]. apply foldl_max_split.
Qed.
End MaxFacts.

Section SliceFacts.
Context {A : Type}.
Implicit Types l : list A.

Lemma slice_to_nonneg l stop :
  0 ≤ stop → Py.slice_to l stop = take (Z.to_nat stop) l.
Proof. intros H. unfold Py.slice_to. by rewrite (proj2 (Z.ltb_ge _ _) H). Qed.

Lemma slice_to_length l stop :
  0 ≤ stop → Z.of_nat (length (Py.slice_to l stop)) ≤ stop.
Proof. intros H. rewrite slice_to_nonneg, length_take by done. lia. Qed.

Lemma slice_to_all l stop :
  Z.of_nat (length l) ≤ stop → Py.slice_to l stop = l.
Proof.
  intros H. rewrite slice_to_nonneg by lia. apply take_ge. lia.
Qed.
End SliceFacts.

(** ** The sorted list of years *)

Lemma StronglySorted_le_NoDup_lt (l : list Z) :
  StronglySorted Z.le l → NoDup l → StronglySorted Z.lt l.
Proof.
  induction 1 as [|x l Hl IH Hx]; intros Hnd; [constructor|].
  apply NoDup_cons in Hnd as [Hx' Hnd]. constructor; [auto|].
  apply Forall_forall. intros y Hy.
  rewrite Forall_forall in Hx. specialize (Hx y Hy).
  assert (x ≠ y) by (intros ->; done). lia.
Qed.

Lemma años_ordenados_elem registros a :
  a ∈ años_ordenados registros ↔ ∃ r, r ∈ registros ∧ año r = a.
Proof.
  unfold años_ordenados.
  rewrite (sorted_Permutation id false), elem_of_elements, elem_of_list_to_set.
  rewrite list_elem_of_fmap. split; intros (r & H1 & H2); eauto.
Qed.

Lemma años_ordenados_NoDup registros : NoDup (años_ordenados registros).
Proof.
  unfold años_ordenados.
  rewrite (sorted_Permutation id false). apply NoDup_elements.
Qed.

Lemma años_ordenados_sorted registros :
  StronglySorted Z.lt (años_ordenados registros).
Proof.
  apply StronglySorted_le_NoDup_lt; [|apply años_ordenados_NoDup].
  apply (sorted_StronglySorted id false).
Qed.

Lemma años_ordenados_nil : años_ordenados [] = [].
Proof. reflexivity. Qed.

(** ** Sums split by a key *)

Section SumByKey.
Context {K : Type} `{EqDecision K}.

Lemma sum_fmap_add (a b : K → Z) (ks : list K) :
  Py.sum ((λ k, a k + b k) <$> ks) = Py.sum (a <$> ks) + Py.sum (b <$> ks).
Proof.
  induction ks as [|k ks IH].
  - reflexivity.
  - rewrite !fmap_cons, !sum_cons, IH. lia.
Qed.

Lemma sum_fmap_ext (a b : K → Z) (ks : list K) :
  (∀ k, a k = b k) → Py.sum (a <$> ks) = Py.sum (b <$> ks).
Proof. intros H. f_equal. apply list_fmap_ext. auto. Qed.

(** Over a duplicate-free list, an indicator of one key sums to at
    most one occurrence. *)
Lemma sum_indicator (k0 : K) (c : Z) (ks : list K) :
  NoDup ks →
  Py.sum ((λ k, if decide (k0 = k) then c else 0) <$> ks)
  = if decide (k0 ∈ ks) then c else 0.
Proof.
  induction 1 as [|k ks Hk _ IH].
  - rewrite fmap_nil, sum_nil. by rewrite decide_False by apply not_elem_of_nil.
  - rewrite fmap_cons, sum_cons, IH. destruct (decide (k0 = k)) as [->|Hne].
    + rewrite (decide_False (P := k ∈ ks)) by done.
      rewrite decide_True by left. lia.
    + destruct (decide (k0 ∈ ks)).
      * rewrite decide_True by (by right). lia.
      * rewrite decide_False; [lia|].
        intros [?|?]%elem_of_cons; done.
Qed.

Context (g : Registro → K) (P : Registro → Prop) `{∀ r, Decision (P r)}.
Context (Q : K → Registro → Prop) `{∀ k r, Decision (Q k r)}.
Hypothesis Q_spec : ∀ k r, Q k r ↔ g r = k ∧ P r.

(** Summing, over a duplicate-free list of keys that covers the
    records selected by [P], the frequencies of the selected records
    of each key, counts every selected record once. *)
Lemma sum_by_key (ks : list K) (l : list Registro) :
  NoDup ks →
  (∀ r, r ∈ l → P r → g r ∈ ks) →
  Py.sum ((λ k, Py.sum (frecuencia <$> filter (Q k) l)) <$> ks)
  = Py.sum (frecuencia <$> filter P l).
Proof.
  intros Hnd. induction l as [|r l IH]; intros Hcov.
  - rewrite filter_nil, fmap_nil, sum_nil.
    apply sum_zeros, Forall_fmap, Forall_forall. by intros k _.
  - rewrite (sum_fmap_ext _
      (λ k, (if decide (g r = k) then if decide (P r) then frecuencia r else 0
             else 0)
            + Py.sum (frecuencia <$> filter (Q k) l))).
    2:{ intros k. rewrite filter_cons.
        destruct (decide (Q k r)) as [HQ|HQ].
        - apply Q_spec in HQ as [Hg HP].
          rewrite fmap_cons, sum_cons, !decide_True by done. done.
        - destruct (decide (g r = k)); [|lia].
          rewrite decide_False; [lia|]. intros HP. apply HQ, Q_spec. done. }
    rewrite sum_fmap_add, IH.
    2:{ intros r' Hr'. apply Hcov. by right. }
    rewrite sum_indicator by done. rewrite filter_cons.
    destruct (decide (P r)) as [HP|HP].
    + rewrite decide_True by (apply Hcov; [left|done]).
      by rewrite fmap_cons, sum_cons.
    + destruct (decide (g r ∈ ks)); lia.
Qed.
End SumByKey.

(** ** Selection by gender *)

Lemma aplicar_filtro_elem registros filtro r :
  r ∈ aplicar_filtro registros filtro
  ↔ r ∈ registros
    ∧ match filtro with Some g => genero r = g | None => True end.
Proof.
  destruct filtro as [g|]; simpl.
  - unfold filtrar_por_genero. rewrite list_elem_of_filter. tauto.
  - tauto.
Qed.

Lemma sublist_Forall_filter {A} (P : A → Prop) `{∀ x, Decision (P x)}
    (l k : list A) :
  l `sublist_of` k → Forall P l → l `sublist_of` filter P k.
Proof.
  induction 1 as [|x l k _ IH|x l k _ IH]; intros HP.
  - constructor.
  - apply Forall_cons in HP as [Hx HP].
    rewrite filter_cons_True by done. constructor. auto.
  - rewrite filter_cons. case_decide; [constructor|]; auto.
Qed.

(** C7: [filtrar_por_genero registros g] is a subsequence of
    [registros] (so it adds and changes nothing and keeps the order),
    its members are exactly the records of [registros] whose gender is
    [g], and it drops none of them: every subsequence of [registros]
    made of records of gender [g] is a subsequence of the result. *)
Theorem filtrar_por_genero_spec (registros : list Registro) (g : string) :
  let res := filtrar_por_genero registros g in
  res `sublist_of` registros
  ∧ (∀ r, r ∈ res ↔ r ∈ registros ∧ genero r = g)
  ∧ (∀ l, l `sublist_of` registros → Forall (λ r, genero r = g) l →
          l `sublist_of` res).
Proof.
  unfold filtrar_por_genero. simpl. split; [apply sublist_filter|].
  split.
  - intros r. rewrite list_elem_of_filter. tauto.
  - intros l. apply sublist_Forall_filter.
Qed.

(** ** Ranking of one year *)

Lemma filter_año_aplicar_filtro registros a filtro :
  filter (λ r, año r = a) (aplicar_filtro registros filtro)
  = filter (califica a filtro) registros.
Proof.
  destruct filtro as [g|]; simpl.
  - unfold filtrar_por_genero. rewrite list_filter_filter. done.
  - apply list_filter_iff. unfold califica. tauto.
Qed.

Lemma top_nombres_unfold registros a limite filtro :
  calcular_top_nombres_de_año registros a limite filtro
  = Py.slice_to
      (Py.sorted snd true
         ((λ r, (nombre r, frecuencia r))
            <$> filter (califica a filtro) registros))
      limite.
Proof.
  unfold calcular_top_nombres_de_año. by rewrite filter_año_aplicar_filtro.
Qed.

Example top_nombres_ejemplo :
  calcular_top_nombres_de_año ejemplo_ab 2002 1 None = [("B"%string, 20)].
Proof. vm_compute. reflexivity. Qed.

(** C1, as amended: for a limit that is not negative,
    [calcular_top_nombres_de_año] returns the first [limite] pairs of
    [ordenados], where [ordenados] is the list of the (name, frequency)
    pairs of the records of the year (and of the gender, under a
    filter) rearranged in non-increasing frequency with the pairs of
    equal frequency in their original relative order; the result has at
    most [limite] pairs, and is all of [ordenados] when no more than
    [limite] records qualify. *)
Theorem top_nombres_spec (registros : list Registro) (a limite : Z)
    (filtro : option string) :
  0 ≤ limite →
  let candidatos :=
    (λ r, (nombre r, frecuencia r)) <$> filter (califica a filtro) registros in
  let res := calcular_top_nombres_de_año registros a limite filtro in
  ∃ ordenados : list (string * Z),
    ordenados ≡ₚ candidatos
    ∧ StronglySorted (λ p q, q.2 ≤ p.2) ordenados
    ∧ (∀ f, filter (λ p, p.2 = f) ordenados = filter (λ p, p.2 = f) candidatos)
    ∧ res = take (Z.to_nat limite) ordenados
    ∧ Z.of_nat (length res) ≤ limite
    ∧ (Z.of_nat (length candidatos) ≤ limite → res = ordenados).
Proof.
  intros Hlim candidatos res.
  exists (Py.sorted snd true candidatos).
  assert (res = Py.slice_to (Py.sorted snd true candidatos) limite) as ->
    by apply top_nombres_unfold.
  split; [apply sorted_Permutation|].
  split; [apply (sorted_StronglySorted snd true)|].
  split; [intros f; apply (sorted_filter_key snd true)|].
  split; [by apply slice_to_nonneg|].
  split; [by apply slice_to_length|].
  intros Hlen. apply slice_to_all.
  by rewrite (Permutation_length (sorted_Permutation snd true candidatos)).
Qed.

Lemma top_nombres_spec_witness :
  0 ≤ 1 ∧ Z.of_nat (length (calcular_top_nombres_de_año ejemplo_ab 2002 1 None)) ≤ 1.
Proof.
  split; [lia|].
  destruct (top_nombres_spec ejemplo_ab 2002 1 None) as (o & _ & _ & _ & _ & H & _).
  - lia.
  - exact H.
Defined.

(** C1 as stated fails for a negative limit: [resultado[:-1]] drops the
    last pair only, so one pair is returned where the claim bounds the
    length by [-1]. *)
Lemma top_nombres_limite_negativo :
  calcular_top_nombres_de_año ejemplo_ana 2002 (-1) None = [("ANA"%string, 100)]
  ∧ ¬ (Z.of_nat (length (calcular_top_nombres_de_año ejemplo_ana 2002 (-1) None))
       ≤ -1).
Proof. split; [vm_compute; reflexivity|]. vm_compute. intros H. by apply H. Qed.

(** ** Frequencies of a name, per year and in total *)

Lemma frecuencia_por_año_años registros n :
  (calcular_frecuencia_por_año registros n).*1 = años_ordenados registros.
Proof.
  unfold calcular_frecuencia_por_año. rewrite <-list_fmap_compose.
  apply list_fmap_id.
Qed.

Lemma frecuencia_por_año_frecuencias registros n :
  (calcular_frecuencia_por_año registros n).*2
  = (λ a, Py.sum (frecuencia <$>
                    filter (λ r, año r = a ∧ nombre r = n) registros))
      <$> años_ordenados registros.
Proof.
  unfold calcular_frecuencia_por_año. by rewrite <-list_fmap_compose.
Qed.

Example ejemplo_ana_por_año :
  calcular_frecuencia_por_año ejemplo_ana "ANA" = [(2002, 105); (2003, 50)].
Proof. vm_compute. reflexivity. Qed.

Example ejemplo_ana_acumulada :
  calcular_frecuencia_acumulada ejemplo_ana "ANA" = 155.
Proof. vm_compute. reflexivity. Qed.

(** C2: the years of the pairs of [calcular_frecuencia_por_año] are
    strictly increasing (ascending, one pair per year) and are exactly
    the years some record of the whole list has, whatever its name; a
    pair is in the result exactly when its year is one of them and its
    total is the sum of the frequencies of the records of that year and
    that name, of either gender, a total of zero included.  On the
    three records of the example the result is [(2002,105); (2003,50)]. *)
Theorem frecuencia_por_anyo_spec (registros : list Registro) (n : string) :
  let res := calcular_frecuencia_por_año registros n in
  StronglySorted Z.lt (res.*1)
  ∧ (∀ a, a ∈ res.*1 ↔ ∃ r, r ∈ registros ∧ año r = a)
  ∧ (∀ a t, (a, t) ∈ res
       ↔ (∃ r, r ∈ registros ∧ año r = a)
         ∧ t = Py.sum (frecuencia <$>
                         filter (λ r, año r = a ∧ nombre r = n) registros))
  ∧ calcular_frecuencia_por_año ejemplo_ana "ANA" = [(2002, 105); (2003, 50)].
Proof.
  intros res. subst res. rewrite frecuencia_por_año_años.
  split; [apply años_ordenados_sorted|].
  split; [apply años_ordenados_elem|].
  split; [|apply ejemplo_ana_por_año].
  intros a t. unfold calcular_frecuencia_por_año.
  rewrite list_elem_of_fmap. setoid_rewrite años_ordenados_elem. split.
  - intros (a' & [= -> ->] & Ha). done.
  - intros [Ha ->]. eauto.
Qed.

Lemma suma_de_nombre_filter n registros :
  Py.sum (frecuencia <$> filter (λ r, nombre r = n) registros)
  = suma_de_nombre n registros.
Proof.
  induction registros as [|r l IH]; [done|].
  rewrite filter_cons. simpl. rewrite <-IH.
  case_decide; [|lia]. by rewrite fmap_cons, sum_cons.
Qed.

(** C4: the cumulative frequency of a name is the sum of the second
    components of [calcular_frecuencia_por_año], and is the sum, record
    by record, of the frequency of the records of that name, whatever
    their year and gender. *)
Theorem frecuencia_acumulada_spec (registros : list Registro) (n : string) :
  calcular_frecuencia_acumulada registros n
  = Py.sum ((calcular_frecuencia_por_año registros n).*2)
  ∧ calcular_frecuencia_acumulada registros n = suma_de_nombre n registros.
Proof.
  split; [|apply suma_de_nombre_filter].
  rewrite frecuencia_por_año_frecuencias. symmetry.
  apply (sum_by_key año (λ r, nombre r = n)).
  - done.
  - apply años_ordenados_NoDup.
  - intros r Hr _. apply años_ordenados_elem. eauto.
Qed.

(** C8: for a name no record has, the cumulative frequency is [0] and
    the result of [calcular_frecuencia_por_año] has its years in
    strictly increasing order and holds the pair of a year and a total
    exactly when some record is of that year and the total is [0]: one
    pair of total zero for every year present, so the empty list when
    there is no record; both results are plain values: the model of
    these two functions has no error case. *)
Theorem nombre_ausente_spec (registros : list Registro) (n : string) :
  (∀ r, r ∈ registros → nombre r ≠ n) →
  let res := calcular_frecuencia_por_año registros n in
  calcular_frecuencia_acumulada registros n = 0
  ∧ StronglySorted Z.lt (res.*1)
  ∧ (∀ a t, (a, t) ∈ res ↔ (∃ r, r ∈ registros ∧ año r = a) ∧ t = 0)
  ∧ (registros = [] → res = []).
Proof.
  intros Habs res.
  assert (∀ P : Registro → Prop, ∀ HP : (∀ r, Decision (P r)),
            (∀ r, P r → nombre r = n) →
            Py.sum (frecuencia <$> filter P registros) = 0) as Hzero.
  { intros P HP Hn. replace (filter P registros) with (@nil Registro); [done|].
    symmetry. clear res. induction registros as [|r l IH]; [done|].
    rewrite filter_cons_False.
    - apply IH. intros r' Hr'. apply Habs. by right.
    - intros HPr. apply (Habs r); [left|auto]. }
  split; [apply Hzero; auto|].
  split; [subst res; rewrite frecuencia_por_año_años;
          apply años_ordenados_sorted|].
  split; [|by intros ->].
  intros a t. subst res. unfold calcular_frecuencia_por_año.
  rewrite list_elem_of_fmap. setoid_rewrite años_ordenados_elem.
  split.
  - intros (a' & [= -> ->] & Ha). split; [done|].
    apply Hzero. tauto.
  - intros [Ha ->]. exists a. split; [|done]. f_equal.
    symmetry. apply Hzero. tauto.
Qed.

Lemma nombre_ausente_spec_witness :
  (∀ r, r ∈ ejemplo_ana → nombre r ≠ "IKER"%string)
  ∧ calcular_frecuencia_por_año ejemplo_ana "IKER" = [(2002, 0); (2003, 0)]
  ∧ calcular_frecuencia_acumulada ejemplo_ana "IKER" = 0
  ∧ StronglySorted Z.lt ((calcular_frecuencia_por_año ejemplo_ana "IKER").*1)
  ∧ (∀ a t, (a, t) ∈ calcular_frecuencia_por_año ejemplo_ana "IKER"
            ↔ (∃ r, r ∈ ejemplo_ana ∧ año r = a) ∧ t = 0)
  ∧ (ejemplo_ana = [] → calcular_frecuencia_por_año ejemplo_ana "IKER" = []).
Proof.
  assert (∀ r, r ∈ ejemplo_ana → nombre r ≠ "IKER"%string) as Habs.
  { intros r Hr. unfold ejemplo_ana in Hr.
    repeat (apply elem_of_cons in Hr as [->|Hr]; [discriminate|]).
    by apply elem_of_nil in Hr. }
  split; [exact Habs|].
  split; [vm_compute; reflexivity|].
  exact (nombre_ausente_spec ejemplo_ana "IKER" Habs).
Defined.

(** ** The most frequent name of each year *)

Lemma filter_split_inv {A} (P : A → Prop) `{∀ x, Decision (P x)}
    (l k1 k2 : list A) (x : A) :
  filter P l = k1 ++ x :: k2 →
  ∃ l1 l2, l = l1 ++ x :: l2 ∧ filter P l1 = k1 ∧ filter P l2 = k2.
Proof.
  revert k1. induction l as [|y l IH]; intros k1 Heq.
  - by destruct k1.
  - rewrite filter_cons in Heq. destruct (decide (P y)) as [Hy|Hy].
    + destruct k1 as [|z k1]; simplify_eq/=.
      * exists [], l. done.
      * destruct (IH _ H1) as (l1 & l2 & -> & <- & <-).
        exists (z :: l1), l2. by rewrite filter_cons_True.
    + destruct (IH _ Heq) as (l1 & l2 & -> & <- & <-).
      exists (y :: l1), l2. by rewrite filter_cons_False.
Qed.

Lemma Forall_filter_impl {A} (P Q : A → Prop) `{∀ x, Decision (P x)}
    (l : list A) :
  Forall Q (filter P l) → Forall (λ x, P x → Q x) l.
Proof.
  rewrite !Forall_forall. intros HQ x Hx HP.
  apply HQ, list_elem_of_filter. done.
Qed.

(** The records of a year the loop visits are never empty: the year
    was read off one of them. *)
Lemma registros_de_año_no_vacio (sel : list Registro) (a : Z) :
  a ∈ años_ordenados sel → filter (λ r, año r = a) sel ≠ [].
Proof.
  intros (r & Hr & Ha)%años_ordenados_elem Hnil.
  eapply (filter_nil_not_elem_of (λ r, año r = a)); eauto.
Qed.

(** One turn of the loop of [calcular_nombre_mas_frecuente_por_año]. *)
Lemma mas_frecuente_de_año (sel : list Registro) (a : Z) :
  a ∈ años_ordenados sel →
  ∃ r l1 l2,
    Py.max frecuencia (filter (λ r, año r = a) sel) = Some r
    ∧ año r = a
    ∧ sel = l1 ++ r :: l2
    ∧ Forall (λ r', año r' = a → frecuencia r' < frecuencia r) l1
    ∧ Forall (λ r', año r' = a → frecuencia r' ≤ frecuencia r) l2.
Proof.
  intros Ha.
  destruct (max_is_Some frecuencia _ (registros_de_año_no_vacio _ _ Ha))
    as [r Hr].
  destruct (max_Some_split _ _ _ Hr) as (k1 & k2 & Hk & H1 & H2).
  destruct (filter_split_inv _ _ _ _ _ Hk) as (l1 & l2 & -> & <- & <-).
  exists r, l1, l2. split; [done|]. split.
  - assert (r ∈ filter (λ r, año r = a) (l1 ++ r :: l2)) as Hin.
    { rewrite Hk. apply elem_of_app. right. left. }
    by apply list_elem_of_filter in Hin as [? _].
  - split; [done|]. split.
    + by apply (Forall_filter_impl (λ r', año r' = a)
                  (λ r', frecuencia r' < frecuencia r)).
    + by apply (Forall_filter_impl (λ r', año r' = a)
                  (λ r', frecuencia r' ≤ frecuencia r)).
Qed.

(** C10: for every year the loop iterates over, the list handed to
    [max] is not empty, so [max] returns a record there and the whole
    function returns a list: the error of an empty [max] cannot occur. *)
Theorem nombre_mas_frecuente_total (registros : list Registro)
    (filtro : option string) :
  let sel := aplicar_filtro registros filtro in
  Forall (λ a, filter (λ r, año r = a) sel ≠ []) (años_ordenados sel)
  ∧ Forall (λ a, is_Some (Py.max frecuencia (filter (λ r, año r = a) sel)))
      (años_ordenados sel)
  ∧ is_Some (calcular_nombre_mas_frecuente_por_año registros filtro).
Proof.
  intros sel.
  assert (Forall (λ a, filter (λ r, año r = a) sel ≠ []) (años_ordenados sel))
    as Hne.
  { apply Forall_forall. intros a Ha. by apply registros_de_año_no_vacio. }
  split; [done|].
  assert (Forall (λ a, is_Some (Py.max frecuencia (filter (λ r, año r = a) sel)))
            (años_ordenados sel)) as Hmax.
  { eapply Forall_impl; [exact Hne|]. intros a. apply max_is_Some. }
  split; [done|].
  unfold calcular_nombre_mas_frecuente_por_año. apply mapM_is_Some_2.
  eapply Forall_impl; [exact Hmax|]. intros a [r Hr]. simpl.
  fold sel. rewrite Hr. simpl. eauto.
Qed.

Lemma años_ordenados_califica (registros : list Registro)
    (filtro : option string) (a : Z) :
  a ∈ años_ordenados (aplicar_filtro registros filtro)
  ↔ ∃ r, r ∈ registros ∧ califica a filtro r.
Proof.
  rewrite años_ordenados_elem. setoid_rewrite aplicar_filtro_elem.
  unfold califica. split.
  - intros (r & [? ?] & ?). eauto.
  - intros (r & ? & ? & ?). eauto.
Qed.

(** One turn of the loop, read on the records as they were given. *)
Lemma mas_frecuente_de_año_califica (registros : list Registro)
    (filtro : option string) (a : Z) :
  a ∈ años_ordenados (aplicar_filtro registros filtro) →
  ∃ r l1 l2,
    Py.max frecuencia
      (filter (λ r, año r = a) (aplicar_filtro registros filtro)) = Some r
    ∧ registros = l1 ++ r :: l2
    ∧ califica a filtro r
    ∧ Forall (λ r', califica a filtro r' → frecuencia r' < frecuencia r) l1
    ∧ Forall (λ r', califica a filtro r' → frecuencia r' ≤ frecuencia r) l2.
Proof.
  intros Ha.
  destruct (max_is_Some frecuencia _ (registros_de_año_no_vacio _ _ Ha))
    as [r Hr].
  exists r.
  destruct (max_Some_split _ _ _ Hr) as (k1 & k2 & Hk & H1 & H2).
  rewrite filter_año_aplicar_filtro in Hk.
  destruct (filter_split_inv _ _ _ _ _ Hk) as (l1 & l2 & Hreg & <- & <-).
  exists l1, l2. split; [done|]. split; [done|]. split.
  - assert (r ∈ filter (califica a filtro) registros) as Hin.
    { rewrite Hk. apply elem_of_app. right. left. }
    by apply list_elem_of_filter in Hin as [? _].
  - split.
    + by apply (Forall_filter_impl (califica a filtro)
                  (λ r', frecuencia r' < frecuencia r)).
    + by apply (Forall_filter_impl (califica a filtro)
                  (λ r', frecuencia r' ≤ frecuencia r)).
Qed.

(** C3: [calcular_nombre_mas_frecuente_por_año] returns a list; the
    years of its triples are strictly increasing (ascending, one triple
    per year) and are exactly the years of the records that pass the
    gender filter (of all the records when there is none); every
    triple is the year, name and frequency of a record [r] of the list
    given that passes the filter, such that no record of that year
    passing the filter has a larger frequency, and those before [r]
    have a smaller one: [r] is the first record of maximal frequency of
    its year. *)
Theorem nombre_mas_frecuente_spec (registros : list Registro)
    (filtro : option string) :
  ∃ res : list (Z * string * Z),
    calcular_nombre_mas_frecuente_por_año registros filtro = Some res
    ∧ StronglySorted Z.lt (res.*1.*1)
    ∧ (∀ a, a ∈ res.*1.*1 ↔ ∃ r, r ∈ registros ∧ califica a filtro r)
    ∧ Forall (λ t, ∃ r l1 l2,
                t = (año r, nombre r, frecuencia r)
                ∧ registros = l1 ++ r :: l2
                ∧ califica (año r) filtro r
                ∧ Forall (λ r', califica (año r) filtro r' →
                                frecuencia r' < frecuencia r) l1
                ∧ Forall (λ r', califica (año r) filtro r' →
                                frecuencia r' ≤ frecuencia r) l2)
        res.
Proof.
  unfold calcular_nombre_mas_frecuente_por_año.
  set (sel := aplicar_filtro registros filtro).
  set (f := λ a : Z, _).
  assert (∀ a, a ∈ años_ordenados sel →
            ∃ r l1 l2, f a = Some (año r, nombre r, frecuencia r)
              ∧ año r = a ∧ registros = l1 ++ r :: l2
              ∧ califica a filtro r
              ∧ Forall (λ r', califica a filtro r' →
                              frecuencia r' < frecuencia r) l1
              ∧ Forall (λ r', califica a filtro r' →
                              frecuencia r' ≤ frecuencia r) l2)
    as Hf.
  { intros a Ha.
    destruct (mas_frecuente_de_año_califica registros filtro a Ha)
      as (r & l1 & l2 & Hr & Hreg & Hcal & H1 & H2).
    exists r, l1, l2. fold sel in Hr.
    assert (año r = a) as Hyear by apply Hcal.
    split; [unfold f; simpl; rewrite Hr; simpl; by rewrite Hyear|done]. }
  assert (is_Some (mapM f (años_ordenados sel))) as [res Hres].
  { apply mapM_is_Some_2, Forall_forall. intros a Ha.
    destruct (Hf a Ha) as (r & _ & _ & Hfa & _). unfold compose. eauto. }
  exists res. split; [done|].
  apply mapM_Some_1 in Hres.
  assert (res.*1.*1 = años_ordenados sel ∧
          Forall (λ t, ∃ r l1 l2,
                t = (año r, nombre r, frecuencia r)
                ∧ registros = l1 ++ r :: l2
                ∧ califica (año r) filtro r
                ∧ Forall (λ r', califica (año r) filtro r' →
                                frecuencia r' < frecuencia r) l1
                ∧ Forall (λ r', califica (año r) filtro r' →
                                frecuencia r' ≤ frecuencia r) l2)
            res) as [Hyears Hall].
  { revert Hres Hf. generalize (años_ordenados sel). intros ys0 Hres Hf.
    induction Hres as [|a t ys res Hat _ IH].
    - split; [done|constructor].
    - destruct IH as [IH1 IH2].
      { intros a' Ha'. apply Hf. by right. }
      destruct (Hf a) as (r & l1 & l2 & Hfa & <- & Hsel & Hcal & H1 & H2);
        [left|].
      rewrite Hfa in Hat. injection Hat as <-.
      split; [rewrite !fmap_cons; simpl; by rewrite IH1|].
      constructor; [|done]. exists r, l1, l2. done. }
  rewrite Hyears.
  split; [apply años_ordenados_sorted|].
  split; [apply años_ordenados_califica|done].
Qed.

(** ** The dictionary of cumulative frequencies *)

Section LlenarDiccionario.
Context (v : string → Z).

Local Abbreviation llenar :=
  (foldl (λ (d : gmap string Z) n, <[n := v n]> d)).

Lemma llenar_lookup (ns : list string) (d0 : gmap string Z) (k : string) :
  llenar d0 ns !! k = if decide (k ∈ ns) then Some (v k) else d0 !! k.
Proof.
  revert d0. induction ns as [|n ns IH]; intros d0; cbn [foldl].
  - by rewrite decide_False by apply not_elem_of_nil.
  - rewrite IH. destruct (decide (k ∈ ns)) as [Hk|Hk].
    + by rewrite decide_True by (by right).
    + destruct (decide (n = k)) as [->|Hne].
      * rewrite lookup_insert_eq. by rewrite decide_True by left.
      * rewrite lookup_insert_ne by done. rewrite decide_False; [done|].
        intros [?|?]%elem_of_cons; congruence.
Qed.

Lemma llenar_to_list (ns : list string) (d0 : gmap string Z) :
  NoDup ns → (∀ n, n ∈ ns → d0 !! n = None) →
  map_to_list (llenar d0 ns) ≡ₚ ((λ n, (n, v n)) <$> ns) ++ map_to_list d0.
Proof.
  intros Hnd. revert d0.
  induction Hnd as [|n ns Hn _ IH]; intros d0 Hfresh; cbn [foldl]; [done|].
  rewrite IH.
  - rewrite map_to_list_insert by (apply Hfresh; left).
    by rewrite <-Permutation_middle.
  - intros n' Hn'. rewrite lookup_insert_ne by (intros ->; done).
    apply Hfresh. by right.
Qed.
End LlenarDiccionario.

Lemma calcular_nombres_elem (registros : list Registro) (n : string) :
  n ∈ calcular_nombres registros None ↔ ∃ r, r ∈ registros ∧ nombre r = n.
Proof.
  unfold calcular_nombres. simpl.
  rewrite elem_of_list_to_set, list_elem_of_fmap.
  split; intros (r & H1 & H2); eauto.
Qed.

Lemma frecuencias_por_nombre_lookup (registros : list Registro) (n : string) :
  calcular_frecuencias_por_nombre registros !! n
  = if decide (n ∈ calcular_nombres registros None)
    then Some (calcular_frecuencia_acumulada registros n)
    else None.
Proof.
  unfold calcular_frecuencias_por_nombre.
  rewrite (llenar_lookup (calcular_frecuencia_acumulada registros)).
  rewrite lookup_empty.
  destruct (decide (n ∈ calcular_nombres registros None)) as [Hn|Hn].
  - by rewrite decide_True by (by apply elem_of_elements).
  - by rewrite decide_False by (by rewrite elem_of_elements).
Qed.

(** C5: the keys of [calcular_frecuencias_por_nombre] are exactly the
    distinct names of the records, and every name among them is mapped
    to its cumulative frequency (a name that no record has is mapped to
    nothing): the dictionary is the one obtained by computing the
    cumulative frequency of every name of the set of distinct names. *)
Theorem frecuencias_por_nombre_spec (registros : list Registro) :
  let d := calcular_frecuencias_por_nombre registros in
  dom d = calcular_nombres registros None
  ∧ (∀ n, n ∈ dom d ↔ ∃ r, r ∈ registros ∧ nombre r = n)
  ∧ (∀ n, d !! n
          = if decide (n ∈ calcular_nombres registros None)
            then Some (calcular_frecuencia_acumulada registros n)
            else None)
  ∧ d = frecuencias_de_cada_nombre registros.
Proof.
  intros d.
  assert (dom d = calcular_nombres registros None) as Hdom.
  { apply set_eq. intros n. rewrite elem_of_dom. subst d.
    rewrite frecuencias_por_nombre_lookup. case_decide.
    - split; [done|]. intros _. eauto.
    - split; [by intros [? ?]|done]. }
  split; [done|]. split.
  { intros n. rewrite Hdom. apply calcular_nombres_elem. }
  split; [apply frecuencias_por_nombre_lookup|].
  apply map_eq. intros n. apply option_eq. intros x.
  unfold frecuencias_de_cada_nombre.
  rewrite lookup_set_to_map by (by intros ?? _ _ [=]).
  subst d. rewrite frecuencias_por_nombre_lookup. case_decide.
  - split.
    + intros [= <-]. eauto.
    + by intros (? & _ & [= -> <-]).
  - split; [done|]. by intros (? & ? & [= -> <-]).
Qed.

Lemma filter_True_id {A} (l : list A) : filter (λ _, True) l = l.
Proof.
  induction l as [|x l IH]; [done|]. by rewrite filter_cons_True, IH.
Qed.

(** C6: the values of [calcular_frecuencias_por_nombre] add up to the
    sum of the frequency of all the records. *)
Theorem suma_valores_spec (registros : list Registro) :
  suma_valores (calcular_frecuencias_por_nombre registros)
  = Py.sum (frecuencia <$> registros).
Proof.
  unfold suma_valores, calcular_frecuencias_por_nombre.
  set (ns := elements (calcular_nombres registros None)).
  assert (NoDup ns) as Hnd by apply NoDup_elements.
  rewrite (sum_Permutation _
             (calcular_frecuencia_acumulada registros <$> ns)).
  2:{ rewrite (llenar_to_list _ ns ∅ Hnd) by (intros; apply lookup_empty).
      rewrite map_to_list_empty, app_nil_r, <-list_fmap_compose. done. }
  unfold calcular_frecuencia_acumulada.
  rewrite (sum_by_key nombre (λ _, True) (λ k r, nombre r = k)).
  - by rewrite filter_True_id.
  - intros k r. tauto.
  - done.
  - intros r Hr _. apply elem_of_elements, calcular_nombres_elem. eauto.
Qed.

(** ** The evolution chart *)

(** C9 as stated fails: the title handed to [plt.title] is the Spanish
    one of the source, not the one the claim quotes. *)
Lemma titulo_evolucion_no_especificado :
  mostrar_evolucion_por_año ejemplo_ana "ANA"
  = [plt_plot [2002; 2003] [105; 50];
     plt_title "Evolución del nombre 'ANA'"; plt_show]
  ∧ mostrar_evolucion_por_año ejemplo_ana "ANA"
    ≠ [plt_plot ((calcular_frecuencia_por_año ejemplo_ana "ANA").*1)
                ((calcular_frecuencia_por_año ejemplo_ana "ANA").*2);
       plt_title (titulo_especificado "ANA"); plt_show].
Proof. split; [vm_compute; reflexivity|]. vm_compute. discriminate. Qed.

(** C9, as amended: [mostrar_evolucion_por_año] makes three calls, in
    this order: [plt.plot] on the years and on the frequencies of
    [calcular_frecuencia_por_año], two lists of one length that pair up
    again into that result, then [plt.title] on the text
    [Evolución del nombre '<name>'] for the name queried, then
    [plt.show]. *)
Theorem mostrar_evolucion_spec (registros : list Registro) (n : string) :
  let res := calcular_frecuencia_por_año registros n in
  ∃ (años frecuencias : list Z),
    mostrar_evolucion_por_año registros n
    = [plt_plot años frecuencias;
       plt_title ("Evolución del nombre '" ++ n ++ "'")%string;
       plt_show]
    ∧ años = res.*1
    ∧ frecuencias = res.*2
    ∧ length años = length frecuencias
    ∧ zip años frecuencias = res.
Proof.
  intros res. exists (res.*1), (res.*2).
  split; [done|]. split; [done|]. split; [done|].
  split; [by rewrite !length_fmap|apply zip_fst_snd].
Qed.

(** ** Further properties of the queries *)

Example titulo_frecuencias_20 :
  titulo_frecuencias 20 = "Frecuencia de los 20 nombres más comunes"%string.
Proof. vm_compute. reflexivity. Qed.

Example mostrar_frecuencias_ejemplo :
  mostrar_frecuencias_nombres elements (λ _ _, true) ejemplo_ab 1
  = Some ([plt_bar ["B"%string] [20]; plt_xticks 80;
           plt_title "Frecuencia de los 1 nombres más comunes"; plt_show],
          true).
Proof. vm_compute. reflexivity. Qed.

Example mostrar_frecuencias_ejemplo_bar_raises :
  mostrar_frecuencias_nombres elements
    (λ _ c, match c with plt_bar _ _ => false | _ => true end) ejemplo_ab 1
  = Some ([plt_bar ["B"%string] [20]], false).
Proof. vm_compute. reflexivity. Qed.

Example compuestos_ejemplo :
  calcular_nombres_compuestos
    [mkRegistro 2002 "JOSE LUIS" 7 "Hombre"; mkRegistro 2002 "ANA" 3 "Mujer"]
    None
  = {["JOSE LUIS"%string]}.
Proof. vm_compute. reflexivity. Qed.

(** *** Selection by gender, composed *)

(** X1: selecting a gender among the records already selected for a
    gender changes nothing when the two genders agree, and leaves no
    record when they differ. *)
Theorem filtrar_por_genero_dos_veces (registros : list Registro)
    (g g' : string) :
  filtrar_por_genero (filtrar_por_genero registros g) g'
  = if decide (g = g') then filtrar_por_genero registros g else [].
Proof.
  unfold filtrar_por_genero. rewrite list_filter_filter.
  induction registros as [|r l IH]; [by case_decide|].
  rewrite !filter_cons, IH.
  destruct (decide (g = g')) as [->|Hne].
  - destruct (decide (genero r = g')).
    + by rewrite decide_True by done.
    + by rewrite decide_False by tauto.
  - rewrite decide_False; [done|]. intros [H1 H2]. congruence.
Qed.

(** X2: when every record is of one of two different genders, the two
    selections split the records: together they are a rearrangement of
    the list and their lengths add up to its length. *)
Theorem filtrar_por_genero_particion (registros : list Registro)
    (g1 g2 : string) :
  g1 ≠ g2 →
  Forall (λ r, genero r = g1 ∨ genero r = g2) registros →
  registros ≡ₚ filtrar_por_genero registros g1 ++ filtrar_por_genero registros g2
  ∧ (length (filtrar_por_genero registros g1)
     + length (filtrar_por_genero registros g2) = length registros)%nat.
Proof.
  intros Hne Hall.
  assert (registros
          ≡ₚ filtrar_por_genero registros g1 ++ filtrar_por_genero registros g2)
    as Hperm.
  { unfold filtrar_por_genero.
    induction Hall as [|r l Hr _ IH]; [done|].
    rewrite !filter_cons. destruct Hr as [Hr|Hr].
    - rewrite decide_True by done. rewrite decide_False by congruence.
      simpl. by constructor.
    - rewrite decide_False by congruence. rewrite decide_True by done.
      rewrite <-Permutation_middle. by constructor. }
  split; [done|]. by rewrite Hperm at 3; rewrite length_app.
Qed.

Lemma filtrar_por_genero_particion_witness :
  ejemplo_ana
  ≡ₚ filtrar_por_genero ejemplo_ana "Mujer"
     ++ filtrar_por_genero ejemplo_ana "Hombre"
  ∧ (length (filtrar_por_genero ejemplo_ana "Mujer")
     + length (filtrar_por_genero ejemplo_ana "Hombre")
     = length ejemplo_ana)%nat.
Proof.
  apply (filtrar_por_genero_particion ejemplo_ana "Mujer" "Hombre").
  - discriminate.
  - unfold ejemplo_ana.
    repeat (apply List.Forall_cons; [simpl; auto|]). apply List.Forall_nil.
Defined.

(** *** The sets of names *)

Lemma calcular_nombres_elem_filtro (registros : list Registro)
    (filtro : option string) (n : string) :
  n ∈ calcular_nombres registros filtro
  ↔ ∃ r, r ∈ registros ∧ nombre r = n
         ∧ match filtro with Some g => genero r = g | None => True end.
Proof.
  unfold calcular_nombres.
  rewrite elem_of_list_to_set, list_elem_of_fmap.
  setoid_rewrite aplicar_filtro_elem.
  split; [intros (r & -> & ? & ?)|intros (r & ? & <- & ?)]; eauto.
Qed.

(** X3: under a gender filter the set of names holds exactly the names
    of the records of that gender, so it is a subset of the set of
    names computed without filter. *)
Theorem calcular_nombres_con_filtro (registros : list Registro) (g : string) :
  (∀ n, n ∈ calcular_nombres registros (Some g)
        ↔ ∃ r, r ∈ registros ∧ nombre r = n ∧ genero r = g)
  ∧ calcular_nombres registros (Some g) ⊆ calcular_nombres registros None.
Proof.
  split.
  - intros n. apply calcular_nombres_elem_filtro.
  - intros n. rewrite !calcular_nombres_elem_filtro.
    intros (r & ? & ? & _). eauto.
Qed.

(** X4: when every record is of one of two genders, the names computed
    without filter are the union of the names of the two genders. *)
Theorem calcular_nombres_union (registros : list Registro) (g1 g2 : string) :
  Forall (λ r, genero r = g1 ∨ genero r = g2) registros →
  calcular_nombres registros None
  = calcular_nombres registros (Some g1) ∪ calcular_nombres registros (Some g2).
Proof.
  intros Hall. apply set_eq. intros n.
  rewrite elem_of_union, !calcular_nombres_elem_filtro.
  rewrite Forall_forall in Hall. split.
  - intros (r & Hr & Hn & _). destruct (Hall r Hr); eauto 6.
  - intros [(r & ? & ? & _)|(r & ? & ? & _)]; eauto.
Qed.

Lemma calcular_nombres_union_witness :
  calcular_nombres ejemplo_ana None
  = calcular_nombres ejemplo_ana (Some "Mujer"%string)
    ∪ calcular_nombres ejemplo_ana (Some "Hombre"%string).
Proof.
  apply (calcular_nombres_union ejemplo_ana "Mujer" "Hombre").
  unfold ejemplo_ana.
  repeat (apply List.Forall_cons; [simpl; auto|]). apply List.Forall_nil.
Defined.

(** X5: a name is common to both genders exactly when some record of
    gender [Hombre] and some record of gender [Mujer] carry it; the
    sizes of the two sets of names add up to the size of their union
    plus the number of common names. *)
Theorem nombres_ambos_generos_spec (registros : list Registro) :
  let hombres := calcular_nombres registros (Some "Hombre"%string) in
  let mujeres := calcular_nombres registros (Some "Mujer"%string) in
  let ambos := calcular_nombres_ambos_generos registros in
  (∀ n, n ∈ ambos
        ↔ (∃ r, r ∈ registros ∧ nombre r = n ∧ genero r = "Hombre"%string)
          ∧ (∃ r, r ∈ registros ∧ nombre r = n ∧ genero r = "Mujer"%string))
  ∧ (size hombres + size mujeres = size (hombres ∪ mujeres) + size ambos)%nat.
Proof.
  intros hombres mujeres ambos. split.
  - intros n. unfold ambos, calcular_nombres_ambos_generos.
    rewrite elem_of_intersection. by rewrite !calcular_nombres_elem_filtro.
  - unfold ambos, calcular_nombres_ambos_generos. fold hombres mujeres.
    rewrite size_union_alt.
    assert (mujeres = (mujeres ∖ hombres) ∪ (hombres ∩ mujeres)) as Hsplit.
    { apply set_eq. intros n.
      rewrite elem_of_union, elem_of_difference, elem_of_intersection.
      destruct (decide (n ∈ hombres)); tauto. }
    rewrite Hsplit at 1. rewrite size_union; [lia|].
    intros n. rewrite elem_of_difference, elem_of_intersection. tauto.
Qed.

(** *** Names of several words *)

Lemma prefix_true_iff (sub s : string) :
  String.prefix sub s = true ↔ ∃ s2, s = sub +:+ s2.
Proof.
  revert s. induction sub as [|a sub IH]; intros s.
  - split; [intros _; by exists s|by destruct s].
  - destruct s as [|b s]; simpl.
    + split; [done|]. by intros [s2 ?].
    + destruct (Ascii.ascii_dec a b) as [->|Hne].
      * rewrite IH. split; intros [s2 Hs]; exists s2.
        -- simpl. by rewrite Hs.
        -- simpl in Hs. by injection Hs.
      * split; [done|]. intros [s2 Hs]. simpl in Hs. by injection Hs.
Qed.

Lemma str_in_true_iff (sub s : string) :
  Py.str_in sub s = true ↔ ∃ s1 s2, s = s1 +:+ sub +:+ s2.
Proof.
  induction s as [|c s IH].
  - change (Py.str_in sub "") with (String.prefix sub "" || false).
    rewrite orb_true_iff, prefix_true_iff. split.
    + intros [[s2 Hs]|?]; [|done]. by exists ""%string, s2.
    + intros (s1 & s2 & Hs). left. destruct s1; [|done]. by exists s2.
  - change (Py.str_in sub (String c s))
      with (String.prefix sub (String c s) || Py.str_in sub s).
    rewrite orb_true_iff, prefix_true_iff, IH. split.
    + intros [[s2 Hs]|(s1 & s2 & ->)].
      * by exists ""%string, s2.
      * by exists (String c s1), s2.
    + intros (s1 & s2 & Hs). destruct s1 as [|c' s1]; simpl in Hs.
      * left. by exists s2.
      * right. injection Hs as _ ->. by exists s1, s2.
Qed.

(** X6: a name is in [calcular_nombres_compuestos] exactly when it is
    in [calcular_nombres] under the same filter and a space occurs in
    it, that is, when it is some text, a space and some text again; the
    compound names under a gender filter are among the compound names
    without filter. *)
Theorem nombres_compuestos_spec (registros : list Registro)
    (filtro : option string) :
  (∀ n, n ∈ calcular_nombres_compuestos registros filtro
        ↔ n ∈ calcular_nombres registros filtro
          ∧ ∃ s1 s2, n = s1 +:+ " " +:+ s2)
  ∧ calcular_nombres_compuestos registros filtro
    ⊆ calcular_nombres_compuestos registros None.
Proof.
  assert (∀ f n, n ∈ calcular_nombres_compuestos registros f
            ↔ n ∈ calcular_nombres registros f
              ∧ ∃ s1 s2, n = s1 +:+ " " +:+ s2) as Hspec.
  { intros f n. unfold calcular_nombres_compuestos.
    rewrite elem_of_filter, Is_true_true, str_in_true_iff. tauto. }
  split; [apply Hspec|].
  intros n. rewrite !Hspec, !calcular_nombres_elem_filtro.
  intros [(r & ? & ? & _) ?]. eauto.
Qed.

(** *** The ranking of a year, for any limit *)

Lemma slice_to_prefix {A} (l : list A) (stop : Z) :
  Py.slice_to l stop `prefix_of` l.
Proof. unfold Py.slice_to. case_match; apply prefix_take. Qed.

Lemma slice_to_length_any {A} (l : list A) (stop : Z) :
  Z.of_nat (length (Py.slice_to l stop))
  = if decide (stop < 0)
    then Z.max 0 (Z.of_nat (length l) + stop)
    else Z.min stop (Z.of_nat (length l)).
Proof.
  unfold Py.slice_to. destruct (stop <? 0) eqn:E.
  - apply Z.ltb_lt in E. rewrite decide_True by done.
    rewrite length_take. lia.
  - apply Z.ltb_ge in E. rewrite decide_False by lia.
    rewrite length_take. lia.
Qed.

(** X7: whatever the limit, the pairs returned are the first pairs of
    the full ranking of the year (the one returned when the limit is
    the number of qualifying records); there are [min limite q] of them
    for a limit that is not negative and [max 0 (q + limite)] for a
    negative one, which therefore cuts the last [-limite] pairs off. *)
Theorem top_nombres_cualquier_limite (registros : list Registro) (a limite : Z)
    (filtro : option string) :
  let q := length (filter (califica a filtro) registros) in
  let todos := calcular_top_nombres_de_año registros a (Z.of_nat q) filtro in
  let res := calcular_top_nombres_de_año registros a limite filtro in
  length todos = q
  ∧ res `prefix_of` todos
  ∧ Z.of_nat (length res)
    = if decide (limite < 0)
      then Z.max 0 (Z.of_nat q + limite)
      else Z.min limite (Z.of_nat q).
Proof.
  intros q todos res. subst todos res. rewrite !top_nombres_unfold.
  set (s := Py.sorted snd true _).
  assert (length s = q) as Hlen.
  { unfold s. rewrite (Permutation_length (sorted_Permutation snd true _)).
    by rewrite length_fmap. }
  rewrite (slice_to_all s (Z.of_nat q)) by lia.
  split; [done|]. split; [apply slice_to_prefix|].
  rewrite slice_to_length_any. by rewrite Hlen.
Qed.

(** X8: when no record qualifies for the year and the filter, the
    ranking is empty, for every limit. *)
Theorem top_nombres_sin_registros (registros : list Registro) (a limite : Z)
    (filtro : option string) :
  (∀ r, r ∈ registros → ¬ califica a filtro r) →
  calcular_top_nombres_de_año registros a limite filtro = [].
Proof.
  intros Hno. rewrite top_nombres_unfold.
  replace (filter (califica a filtro) registros) with (@nil Registro).
  - unfold Py.slice_to. case_match; apply take_nil.
  - symmetry. induction registros as [|r l IH]; [done|].
    rewrite filter_cons_False by (apply Hno; left).
    apply IH. intros r' Hr'. apply Hno. by right.
Qed.

Lemma top_nombres_sin_registros_witness :
  calcular_top_nombres_de_año ejemplo_ana 1999 10 None = [].
Proof.
  apply top_nombres_sin_registros.
  intros r Hr [Ha _]. unfold ejemplo_ana in Hr.
  repeat (apply elem_of_cons in Hr as [->|Hr]; [discriminate|]).
  by apply elem_of_nil in Hr.
Defined.

(** *** The winners of the years are the heads of the rankings *)

Section SortedHead.
Context {A : Type} (key : A → Z).

End SortedHead.




(** *** A gender filter never raises the winner of a year *)

Lemma mapM_Some_elem {A B} (f : A → option B) (l : list A) (k : list B)
    (y : B) :
  mapM f l = Some k → y ∈ k → ∃ x, x ∈ l ∧ f x = Some y.
Proof.
  intros Hk%mapM_Some_1. induction Hk as [|x y' l k Hxy _ IH].
  - by intros ?%elem_of_nil.
  - intros [->|Hy]%elem_of_cons.
    + exists x. split; [left|done].
    + destruct (IH Hy) as (x' & ? & ?). exists x'. split; [by right|done].
Qed.

Lemma mapM_elem_Some {A B} (f : A → option B) (l : list A) (k : list B)
    (x : A) :
  mapM f l = Some k → x ∈ l → ∃ y, y ∈ k ∧ f x = Some y.
Proof.
  intros Hk%mapM_Some_1. induction Hk as [|x' y l k Hxy _ IH].
  - by intros ?%elem_of_nil.
  - intros [->|Hx]%elem_of_cons.
    + exists y. split; [left|done].
    + destruct (IH Hx) as (y' & ? & ?). exists y'. split; [by right|done].
Qed.

Lemma mas_frecuente_elem (registros : list Registro) (filtro : option string)
    (res : list (Z * string * Z)) (a : Z) (n : string) (f : Z) :
  calcular_nombre_mas_frecuente_por_año registros filtro = Some res →
  (a, n, f) ∈ res →
  ∃ r, r ∈ aplicar_filtro registros filtro
       ∧ año r = a ∧ nombre r = n ∧ frecuencia r = f
       ∧ ∀ r', r' ∈ aplicar_filtro registros filtro → año r' = a →
               frecuencia r' ≤ f.
Proof.
  unfold calcular_nombre_mas_frecuente_por_año.
  set (sel := aplicar_filtro registros filtro).
  intros Hres Hin.
  destruct (mapM_Some_elem _ _ _ _ Hres Hin) as (a' & Ha' & Hstep).
  destruct (mas_frecuente_de_año sel a' Ha')
    as (r & l1 & l2 & Hmax & Hyear & Hsel & H1 & H2).
  simpl in Hstep. rewrite Hmax in Hstep. simpl in Hstep.
  injection Hstep as <- <- <-.
  exists r. split; [rewrite Hsel; apply elem_of_app; right; left|].
  split; [done|]. split; [done|]. split; [done|].
  intros r' Hr' Ha. rewrite Hsel in Hr'.
  rewrite Forall_forall in H1, H2.
  apply elem_of_app in Hr' as [Hr'|Hr'].
  - specialize (H1 r' Hr' Ha). lia.
  - apply elem_of_cons in Hr' as [->|Hr']; [lia|]. by apply H2.
Qed.

(** X10: every year that has a winner under a gender filter has one
    without filter too, of a frequency at least as large. *)
Theorem mas_frecuente_filtro_cota (registros : list Registro) (g : string)
    (res_g res : list (Z * string * Z)) :
  calcular_nombre_mas_frecuente_por_año registros (Some g) = Some res_g →
  calcular_nombre_mas_frecuente_por_año registros None = Some res →
  ∀ a n f, (a, n, f) ∈ res_g → ∃ n' f', (a, n', f') ∈ res ∧ f ≤ f'.
Proof.
  intros Hg Hall a n f Hin.
  destruct (mas_frecuente_elem _ _ _ _ _ _ Hg Hin)
    as (r & Hr & Ha & _ & Hf & _).
  apply aplicar_filtro_elem in Hr as [Hr _].
  assert (a ∈ años_ordenados registros) as Hyear
    by (apply años_ordenados_elem; eauto).
  destruct (mapM_elem_Some _ _ _ _ Hall Hyear) as ([[a' n'] f'] & Hin' & Hstep).
  assert (a' = a) as ->.
  { simpl in Hstep. destruct (Py.max _ _); simplify_eq/=. done. }
  exists n', f'. split; [done|].
  destruct (mas_frecuente_elem _ _ _ _ _ _ Hall Hin')
    as (_ & _ & _ & _ & _ & Hmax).
  rewrite <-Hf. by apply Hmax.
Qed.

Lemma mas_frecuente_filtro_cota_witness :
  ∃ n' f', (2002, n', f')
             ∈ [(2002, "ANA"%string, 100); (2003, "ANA"%string, 50)]
           ∧ 5 ≤ f'.
Proof.
  apply (mas_frecuente_filtro_cota ejemplo_ana "Hombre"
           [(2002, "ANA"%string, 5)]
           [(2002, "ANA"%string, 100); (2003, "ANA"%string, 50)]
           ltac:(vm_compute; reflexivity) ltac:(vm_compute; reflexivity)
           2002 "ANA"%string 5).
  left.
Defined.

(** *** The order of the records does not matter to the totals *)

Lemma años_ordenados_Permutation (l1 l2 : list Registro) :
  l1 ≡ₚ l2 → años_ordenados l1 = años_ordenados l2.
Proof. intros H. unfold años_ordenados. by rewrite H. Qed.

Lemma frecuencia_acumulada_Permutation (l1 l2 : list Registro) (n : string) :
  l1 ≡ₚ l2 →
  calcular_frecuencia_acumulada l1 n = calcular_frecuencia_acumulada l2 n.
Proof.
  intros H. unfold calcular_frecuencia_acumulada.
  apply sum_Permutation. by rewrite H.
Qed.

(** X11: rearranging the records changes none of the totals: the
    frequencies per year of a name, its cumulative frequency, the set
    of names and the dictionary of cumulative frequencies are the
    same. *)
Theorem totales_Permutation (l1 l2 : list Registro) (n : string) :
  l1 ≡ₚ l2 →
  calcular_frecuencia_por_año l1 n = calcular_frecuencia_por_año l2 n
  ∧ calcular_frecuencia_acumulada l1 n = calcular_frecuencia_acumulada l2 n
  ∧ calcular_nombres l1 None = calcular_nombres l2 None
  ∧ calcular_frecuencias_por_nombre l1 = calcular_frecuencias_por_nombre l2.
Proof.
  intros H.
  assert (calcular_nombres l1 None = calcular_nombres l2 None) as Hn.
  { unfold calcular_nombres. simpl. by rewrite H. }
  split; [|split; [by apply frecuencia_acumulada_Permutation|split; [done|]]].
  - unfold calcular_frecuencia_por_año.
    rewrite (años_ordenados_Permutation l1 l2 H).
    apply list_fmap_ext. intros _ a _. f_equal.
    apply sum_Permutation. by rewrite H.
  - apply map_eq. intros k. rewrite !frecuencias_por_nombre_lookup, Hn.
    case_decide; [|done]. f_equal.
    by apply frecuencia_acumulada_Permutation.
Qed.

Lemma totales_Permutation_witness :
  calcular_frecuencia_por_año ejemplo_ab "B"
  = calcular_frecuencia_por_año (reverse ejemplo_ab) "B"
  ∧ calcular_frecuencia_acumulada ejemplo_ab "B"
    = calcular_frecuencia_acumulada (reverse ejemplo_ab) "B"
  ∧ calcular_nombres ejemplo_ab None = calcular_nombres (reverse ejemplo_ab) None
  ∧ calcular_frecuencias_por_nombre ejemplo_ab
    = calcular_frecuencias_por_nombre (reverse ejemplo_ab).
Proof.
  apply (totales_Permutation ejemplo_ab (reverse ejemplo_ab) "B").
  symmetry. apply reverse_Permutation.
Defined.

(** *** Bounds and additivity of the totals *)

(** X12: the cumulative frequency of a name over two lists of records
    put end to end is the sum of its cumulative frequencies over each. *)
Theorem frecuencia_acumulada_app (l1 l2 : list Registro) (n : string) :
  calcular_frecuencia_acumulada (l1 ++ l2) n
  = calcular_frecuencia_acumulada l1 n + calcular_frecuencia_acumulada l2 n.
Proof.
  unfold calcular_frecuencia_acumulada.
  by rewrite filter_app, fmap_app, sum_app.
Qed.

Lemma sum_filter_mono (P Q : Registro → Prop)
    `{∀ r, Decision (P r)} `{∀ r, Decision (Q r)} (l : list Registro) :
  (∀ r, P r → Q r) →
  (∀ r, r ∈ l → 0 ≤ frecuencia r) →
  0 ≤ Py.sum (frecuencia <$> filter P l)
  ∧ Py.sum (frecuencia <$> filter P l) ≤ Py.sum (frecuencia <$> filter Q l).
Proof.
  intros HPQ. induction l as [|r l IH]; intros Hpos.
  - rewrite !filter_nil, fmap_nil, sum_nil. lia.
  - destruct IH as [IH1 IH2]; [intros r' Hr'; apply Hpos; by right|].
    assert (0 ≤ frecuencia r) by (apply Hpos; left).
    rewrite !filter_cons. destruct (decide (P r)) as [HP|HP].
    + rewrite decide_True by auto. rewrite !fmap_cons, !sum_cons. lia.
    + destruct (decide (Q r)); [rewrite fmap_cons, sum_cons|]; lia.
Qed.

(** X13: when no frequency is negative, the cumulative frequency of a
    name lies between zero and the total of all the records, and each
    of its yearly totals lies between zero and the cumulative
    frequency. *)
Theorem frecuencias_acotadas (registros : list Registro) (n : string) :
  (∀ r, r ∈ registros → 0 ≤ frecuencia r) →
  0 ≤ calcular_frecuencia_acumulada registros n
      ≤ Py.sum (frecuencia <$> registros)
  ∧ ∀ a t, (a, t) ∈ calcular_frecuencia_por_año registros n →
           0 ≤ t ≤ calcular_frecuencia_acumulada registros n.
Proof.
  intros Hpos. unfold calcular_frecuencia_acumulada. split.
  - rewrite <-(filter_True_id registros) at 3.
    apply (sum_filter_mono (λ r, nombre r = n) (λ _, True)); done.
  - intros a t. unfold calcular_frecuencia_por_año.
    intros (a' & [= -> ->] & _)%list_elem_of_fmap.
    apply (sum_filter_mono (λ r, año r = a' ∧ nombre r = n)
                           (λ r, nombre r = n)); [tauto|done].
Qed.

Lemma frecuencias_acotadas_witness :
  0 ≤ calcular_frecuencia_acumulada ejemplo_ana "ANA"
      ≤ Py.sum (frecuencia <$> ejemplo_ana)
  ∧ ∀ a t, (a, t) ∈ calcular_frecuencia_por_año ejemplo_ana "ANA" →
           0 ≤ t ≤ calcular_frecuencia_acumulada ejemplo_ana "ANA".
Proof.
  apply (frecuencias_acotadas ejemplo_ana "ANA").
  intros r Hr. unfold ejemplo_ana in Hr.
  repeat (apply elem_of_cons in Hr as [->|Hr]; [simpl; lia|]).
  by apply elem_of_nil in Hr.
Defined.

(** *** The alternative single pass *)

Lemma suma_de_nombre_app (n : string) (l1 l2 : list Registro) :
  suma_de_nombre n (l1 ++ l2) = suma_de_nombre n l1 + suma_de_nombre n l2.
Proof. induction l1 as [|r l1 IH]; simpl; lia. Qed.

Lemma suma_de_nombre_ausente (n : string) (l : list Registro) :
  n ∉ nombre <$> l → suma_de_nombre n l = 0.
Proof.
  induction l as [|r l IH]; [done|].
  rewrite fmap_cons, not_elem_of_cons. intros [Hne Hn]. simpl.
  rewrite decide_False by done. rewrite IH by done. lia.
Qed.

Lemma una_pasada_lookup (l : list Registro) (k : string) :
  frecuencias_una_pasada l !! k
  = if decide (k ∈ nombre <$> l) then Some (suma_de_nombre k l) else None.
Proof.
  unfold frecuencias_una_pasada.
  induction l as [|r l IH] using rev_ind.
  - cbn [foldl]. rewrite lookup_empty, fmap_nil.
    by rewrite decide_False by apply not_elem_of_nil.
  - rewrite foldl_snoc, fmap_app, suma_de_nombre_app. cbn [suma_de_nombre].
    change (nombre <$> [r]) with [nombre r].
    destruct (decide (nombre r = k)) as [<-|Hne].
    + rewrite lookup_insert_eq, IH.
      rewrite (decide_True (P := nombre r ∈ _ ++ _))
        by (apply elem_of_app; right; left).
      f_equal. case_decide as Hin; simpl; [lia|].
      rewrite suma_de_nombre_ausente by done. lia.
    + rewrite lookup_insert_ne, IH by done.
      destruct (decide (k ∈ nombre <$> l)) as [Hin|Hin].
      * rewrite decide_True by (apply elem_of_app; by left).
        f_equal. lia.
      * rewrite decide_False; [done|].
        rewrite elem_of_app, list_elem_of_singleton. intros [?|?]; auto.
Qed.

(** X14: the single pass over the records that the source gives as the
    faster alternative builds the same dictionary as
    [calcular_frecuencias_por_nombre]. *)
Theorem una_pasada_equivalente (registros : list Registro) :
  frecuencias_una_pasada registros = calcular_frecuencias_por_nombre registros.
Proof.
  apply map_eq. intros k.
  rewrite una_pasada_lookup, frecuencias_por_nombre_lookup.
  unfold calcular_nombres. simpl.
  destruct (decide (k ∈ nombre <$> registros)) as [Hin|Hin].
  - rewrite decide_True by (by apply elem_of_list_to_set).
    f_equal. symmetry. apply suma_de_nombre_filter.
  - by rewrite decide_False by (by rewrite elem_of_list_to_set).
Qed.

(** *** The bar chart of the most common names *)

Lemma mapM_fmap_Some_elem {A B} (f : A → option B) (g : A → B) (l : list A) :
  (∀ x, x ∈ l → f x = Some (g x)) → mapM f l = Some (g <$> l).
Proof.
  intros Hfg. apply mapM_Some_2.
  induction l as [|x l IH]; [constructor|].
  rewrite fmap_cons. constructor; [apply Hfg; left|].
  apply IH. intros x' Hx'. apply Hfg. by right.
Qed.

Lemma llamar_spec (plt : list plt_call → plt_call → bool)
    (hechas cs : list plt_call) :
  ∃ resto ok,
    llamar plt hechas cs = (hechas ++ resto, ok)
    ∧ resto `prefix_of` cs
    ∧ (ok = true → resto = cs)
    ∧ ((∀ h c, plt h c = true) → ok = true).
Proof.
  revert hechas. induction cs as [|c cs IH]; intros hechas; simpl.
  - exists [], true. by rewrite app_nil_r.
  - destruct (plt hechas c) eqn:E.
    + destruct (IH (hechas ++ [c])) as (resto & ok & -> & Hpre & Hok & Hall).
      exists (c :: resto), ok. rewrite <-app_assoc.
      split; [done|]. split; [by apply prefix_cons|].
      split; [intros H; by rewrite Hok|done].
    + exists [c], false. split; [done|].
      split; [by exists cs|]. split; [done|].
      intros Hall. by rewrite Hall in E.
Qed.

Lemma llamar_primera (plt : list plt_call → plt_call → bool)
    (c : plt_call) (cs : list plt_call) :
  ∃ resto ok,
    llamar plt [] (c :: cs) = (c :: resto, ok)
    ∧ resto `prefix_of` cs
    ∧ (plt [] c = false → resto = [] ∧ ok = false)
    ∧ ((∀ h c, plt h c = true) → resto = cs ∧ ok = true).
Proof.
  simpl. destruct (plt [] c) eqn:E.
  - destruct (llamar_spec plt [c] cs) as (resto & ok & -> & Hpre & Hok & Hall).
    exists resto, ok. split; [done|]. split; [done|]. split; [done|].
    intros H. specialize (Hall H). split; [by apply Hok|done].
  - exists [], false. split; [done|]. split; [apply prefix_nil|].
    split; [done|]. intros Hall. by rewrite Hall in E.
Qed.

Section Barras.
Context (iter : gset string → list string).
Hypothesis iter_elements : ∀ X, iter X ≡ₚ elements X.
Context (plt : list plt_call → plt_call → bool).
Context (registros : list Registro) (limite : Z).

Local Abbreviation d := (calcular_frecuencias_por_nombre registros).
Local Abbreviation todos := (calcular_nombres registros None).
Local Abbreviation acumulada := (calcular_frecuencia_acumulada registros).
Local Abbreviation clave := (λ n : string, default 0 (d !! n)).
Local Abbreviation ordenadas := (Py.sorted clave true (iter todos)).

Lemma barras_lookup (n : string) : n ∈ todos → d !! n = Some (acumulada n).
Proof.
  intros Hn. rewrite frecuencias_por_nombre_lookup. by rewrite decide_True.
Qed.

Lemma barras_ordenadas_elem (n : string) : n ∈ ordenadas ↔ n ∈ todos.
Proof.
  by rewrite (sorted_Permutation clave true), iter_elements, elem_of_elements.
Qed.

Lemma barras_ordenadas_NoDup : NoDup ordenadas.
Proof.
  rewrite (sorted_Permutation clave true), iter_elements.
  apply NoDup_elements.
Qed.

Lemma barras_ordenadas_length : length ordenadas = size todos.
Proof.
  rewrite (Permutation_length (sorted_Permutation clave true _)).
  by rewrite (Permutation_length (iter_elements _)).
Qed.

Lemma barras_unfold :
  ∃ resto ok,
    mostrar_frecuencias_nombres iter plt registros limite
    = Some (plt_bar (Py.slice_to ordenadas limite)
                    (acumulada <$> Py.slice_to ordenadas limite) :: resto, ok)
    ∧ resto `prefix_of` [plt_xticks 80; plt_title (titulo_frecuencias limite);
                         plt_show]
    ∧ (plt [] (plt_bar (Py.slice_to ordenadas limite)
                       (acumulada <$> Py.slice_to ordenadas limite)) = false →
       resto = [] ∧ ok = false)
    ∧ ((∀ h c, plt h c = true) →
       resto = [plt_xticks 80; plt_title (titulo_frecuencias limite); plt_show]
       ∧ ok = true).
Proof.
  unfold mostrar_frecuencias_nombres.
  rewrite (mapM_fmap_Some_elem _ acumulada).
  - cbn [mbind option_bind].
    destruct (llamar_primera plt
                (plt_bar (Py.slice_to ordenadas limite)
                         (acumulada <$> Py.slice_to ordenadas limite))
                [plt_xticks 80; plt_title (titulo_frecuencias limite);
                 plt_show])
      as (resto & ok & -> & ? & ? & ?).
    by exists resto, ok.
  - intros n Hn. apply barras_lookup, barras_ordenadas_elem.
    eapply elem_of_prefix; [exact Hn|apply slice_to_prefix].
Qed.

Lemma suma_acumuladas_elements :
  Py.sum (acumulada <$> elements todos) = Py.sum (frecuencia <$> registros).
Proof.
  unfold calcular_frecuencia_acumulada.
  rewrite (sum_by_key nombre (λ _, True) (λ k r, nombre r = k)).
  - by rewrite filter_True_id.
  - intros k r. tauto.
  - apply NoDup_elements.
  - intros r Hr _. apply elem_of_elements, calcular_nombres_elem. eauto.
Qed.


(** X16: given that iterating over a set visits each of its elements
    once, in whatever order, and a limit that is at least the number of
    distinct names, the first call of [mostrar_frecuencias_nombres] on
    [plt] is [plt.bar] on all the distinct names of the records, each
    once, and on frequencies that add up to the total of all the
    records. *)
Theorem mostrar_frecuencias_todos :
  Z.of_nat (size (calcular_nombres registros None)) ≤ limite →
  ∃ (nombres : list string) (frecuencias : list Z)
    (resto : list plt_call) (ok : bool),
    mostrar_frecuencias_nombres iter plt registros limite
    = Some (plt_bar nombres frecuencias :: resto, ok)
    ∧ NoDup nombres
    ∧ (∀ n, n ∈ nombres ↔ ∃ r, r ∈ registros ∧ nombre r = n)
    ∧ Py.sum frecuencias = Py.sum (frecuencia <$> registros).
Proof.
  intros Hlim.
  destruct barras_unfold as (resto & ok & Hrun & _).
  exists (Py.slice_to ordenadas limite),
         (acumulada <$> Py.slice_to ordenadas limite), resto, ok.
  split; [done|]. clear Hrun.
  rewrite slice_to_all by (by rewrite barras_ordenadas_length).
  assert (ordenadas ≡ₚ elements todos) as Hperm
    by (by rewrite (sorted_Permutation clave true), iter_elements).
  split; [apply barras_ordenadas_NoDup|].
  split.
  { intros n. by rewrite barras_ordenadas_elem, calcular_nombres_elem. }
  rewrite <-suma_acumuladas_elements. apply sum_Permutation.
  by rewrite Hperm.
Qed.
End Barras.


Lemma mostrar_frecuencias_todos_witness :
  (∀ X : gset string, elements X ≡ₚ elements X)
  ∧ Z.of_nat (size (calcular_nombres ejemplo_ab None)) ≤ 2
  ∧ ∃ (nombres : list string) (frecuencias : list Z)
      (resto : list plt_call) (ok : bool),
    mostrar_frecuencias_nombres elements (λ _ _, true) ejemplo_ab 2
    = Some (plt_bar nombres frecuencias :: resto, ok)
    ∧ NoDup nombres
    ∧ (∀ n, n ∈ nombres ↔ ∃ r, r ∈ ejemplo_ab ∧ nombre r = n)
    ∧ Py.sum frecuencias = Py.sum (frecuencia <$> ejemplo_ab).
Proof.
  split; [intros X; reflexivity|].
  assert (Z.of_nat (size (calcular_nombres ejemplo_ab None)) ≤ 2) as Hlim
    by (vm_compute; discriminate).
  split; [exact Hlim|].
  exact (mostrar_frecuencias_todos elements (λ X, reflexivity _) (λ _ _, true)
           ejemplo_ab 2 Hlim).
Defined.

(** *** What the ranking leaves out *)

(** X17: for every limit, the pairs returned come from records that
    qualify for the year and the filter, and the pairs of the full
    ranking that are cut off follow them, none with a larger frequency
    than a pair returned. *)
Theorem top_nombres_domina (registros : list Registro) (a limite : Z)
    (filtro : option string) :
  let q := length (filter (califica a filtro) registros) in
  let todos := calcular_top_nombres_de_año registros a (Z.of_nat q) filtro in
  let res := calcular_top_nombres_de_año registros a limite filtro in
  (∀ p, p ∈ res →
        ∃ r, r ∈ registros ∧ califica a filtro r
             ∧ p = (nombre r, frecuencia r))
  ∧ ∃ resto, todos = res ++ resto
             ∧ ∀ p p', p ∈ res → p' ∈ resto → p'.2 ≤ p.2.
Proof.
  intros q todos res. subst todos res. rewrite !top_nombres_unfold.
  set (cands := (λ r, (nombre r, frecuencia r))
                  <$> filter (califica a filtro) registros).
  set (s := Py.sorted snd true cands).
  assert (length s = q) as Hlen.
  { unfold s. rewrite (Permutation_length (sorted_Permutation snd true _)).
    unfold cands. by rewrite length_fmap. }
  rewrite (slice_to_all s (Z.of_nat q)) by lia.
  destruct (slice_to_prefix s limite) as [resto Hresto].
  split.
  - intros p Hp.
    assert (p ∈ cands) as Hc.
    { rewrite <-(sorted_Permutation snd true cands). fold s.
      rewrite Hresto. apply elem_of_app. by left. }
    unfold cands in Hc.
    apply list_elem_of_fmap in Hc as (r & -> & Hr).
    apply list_elem_of_filter in Hr as [? ?]. eauto.
  - exists resto. split; [done|].
    pose proof (sorted_StronglySorted snd true cands) as Hsort.
    fold s in Hsort. rewrite Hresto in Hsort.
    apply StronglySorted_app in Hsort as (Hcross & _ & _).
    intros p p' Hp Hp'. apply (Hcross p p' Hp Hp').
Qed.

(** *** No record, no winner *)

(** X18: the list of the most frequent names per year is empty exactly
    when no record of the list given passes the gender filter, and it
    has as many triples as there are distinct years among the records
    that pass it. *)
Theorem mas_frecuente_vacio (registros : list Registro)
    (filtro : option string) :
  (calcular_nombre_mas_frecuente_por_año registros filtro = Some []
   ↔ ∀ a r, r ∈ registros → ¬ califica a filtro r)
  ∧ ∀ (res : list (Z * string * Z)) (Y : gset Z),
      calcular_nombre_mas_frecuente_por_año registros filtro = Some res →
      (∀ a, a ∈ Y ↔ ∃ r, r ∈ registros ∧ califica a filtro r) →
      length res = size Y.
Proof.
  set (sel := aplicar_filtro registros filtro).
  assert (∀ res,
            calcular_nombre_mas_frecuente_por_año registros filtro = Some res →
            length res = length (años_ordenados sel)) as Hlen.
  { intros res Hres. unfold calcular_nombre_mas_frecuente_por_año in Hres.
    apply mapM_Some_1, Forall2_length in Hres. done. }
  split.
  - split.
    + intros Hres%Hlen a r Hr Hcal. simpl in Hres.
      assert (a ∈ años_ordenados sel) as Hin
        by (apply años_ordenados_califica; eauto).
      destruct (años_ordenados sel); [by apply elem_of_nil in Hin|done].
    + intros Hno.
      assert (años_ordenados sel = []) as Hnil.
      { destruct (años_ordenados sel) as [|a ys] eqn:E; [done|].
        assert (a ∈ años_ordenados sel) as Hin by (rewrite E; left).
        apply años_ordenados_califica in Hin as (r & Hr & Hcal).
        by destruct (Hno a r Hr). }
      unfold calcular_nombre_mas_frecuente_por_año. fold sel.
      by rewrite Hnil.
  - intros res Y Hres%Hlen HY. rewrite Hres.
    apply Permutation_length, NoDup_Permutation.
    + apply años_ordenados_NoDup.
    + apply NoDup_elements.
    + intros a. unfold sel.
      by rewrite elem_of_elements, HY, años_ordenados_califica.
Qed.
